(** * Session state coordinator: [core/auth/AuthProvider]

    A shallow embedding of the client-side auth/notification context
    provider: the reducer over the session snapshot, the setters, the
    sign-out workflow, the two event handlers (auth-state stream and
    notification change feed) and the [useAuth] accessor.

    Conventions of the embedding.
    - The snapshot is a JavaScript object: a finite map from property
      names to values ([gmap string Value]); the reducer's spread with a
      computed key is a map insert.
    - A handler is the list of effects it performs, in program order.  An
      [async] handler is a list of synchronous segments, cut at each
      [await]; the rendering library applies the dispatches of one segment
      together before any consumer renders again, so the snapshots a
      consumer can observe are those between segments.
    - The value an awaited call fulfils with is an input of the handler.
      A promise that rejects ends its handler at that [await]: the later
      segments do not run.  A schedule need not run all the segments of an
      event, so the invariants proved over schedules cover such runs. *)

From stdpp Require Import gmap strings list fin_maps.
From Stdlib Require Import ZArith.

(** ** Data model *)

Module Notification.
(** [data] is an opaque payload, kept as its text; dates are instants. *)
Record t := mk {
  id : string;
  from : string;
  to : string;
  collection : string;
  type : string;
  message : string;
  data : string;
  link : string;
  viewed : bool;
  created_at : Z;
  updated_at : Z;
}.
End Notification.
Abbreviation Notification := Notification.t.

Module User.
(** The auth provider's user record; the provider reads only [id]. *)
Record t := mk {
  id : string;
  email : string;
}.
End User.
Abbreviation User := User.t.

Module ProfileInput.
(** Modelled from the spec: the schema module that declares
    [ProfileInput] is not among the sources.  The spec calls it an
    application-level profile record; it is kept as its named fields. *)
Record t := mk {
  fields : list (string * string);
}.
End ProfileInput.
Abbreviation ProfileInput := ProfileInput.t.

(** The JavaScript values that the snapshot's properties hold. *)
Inductive Value :=
| VUndefined
| VNull
| VBool (b : bool)
| VString (s : string)
| VUser (u : User)
| VProfile (p : ProfileInput)
| VNotifications (l : list Notification).

(** [Boolean(v)]: JavaScript truthiness. *)
Definition Boolean (v : Value) : bool :=
  match v with
  | VUndefined | VNull => false
  | VBool b => b
  | VString EmptyString => false
  | VString (String _ _) => true
  | VUser _ | VProfile _ | VNotifications _ => true
  end.

(** A nullable argument ([x | null]) as a value. *)
Definition nullable {A} (inj : A → Value) (x : option A) : Value :=
  match x with
  | Some a => inj a
  | None => VNull
  end.

(** [value?.id] on a nullable user. *)
Definition optional_id (value : option User) : Value :=
  match value with
  | Some u => VString (User.id u)
  | None => VUndefined
  end.

(** ** State, actions and the reducer *)

Abbreviation State := (gmap string Value).

Record Action := mkAction {
  type : string;
  payload : Value;
}.

(** [{ ...state, [type]: payload }] *)
Definition reducer (state : State) (action : Action) : State :=
  <[type action := payload action]> state.

Record AuthProviderProps := mkProps {
  defaultUser : option User;
  defaultProfile : option ProfileInput;
  notifications : list Notification;
}.

(** The initial argument of [useReducer]. *)
Definition initialState (props : AuthProviderProps) : State :=
  <["loading" := VBool true]>
  (<["authenticated" := VBool (Boolean (optional_id (defaultUser props)))]>
  (<["user" := nullable VUser (defaultUser props)]>
  (<["profile" := nullable VProfile (defaultProfile props)]>
  (<["error" := VString ""]>
  (<["view" := VString ""]>
  (<["notifications" := VNotifications (notifications props)]> ∅)))))).

(** ** The platform's [URL] class

    The part of the URL standard that the sign-out workflow uses: a parsed
    URL with its query as a list of name/value pairs, the pathname setter,
    [searchParams.set]/[get] and the serialiser behind [toString]. *)

Module URL.
Record t := mk {
  origin : string;
  pathname : string;
  searchParams : list (string * string);
  hash : string;
}.

(** [url.pathname = p], for a [p] that is already a normalised path. *)
Definition set_pathname (p : string) (url : t) : t :=
  mk (origin url) p (searchParams url) (hash url).

(** [URLSearchParams.set]: the first pair named [name] takes the value
    and the later ones are removed; without such a pair one is appended. *)
Fixpoint params_set (name value : string) (l : list (string * string))
  : list (string * string) :=
  match l with
  | [] => [(name, value)]
  | (n, v) :: rest =>
      if decide (n = name)
      then (name, value) :: filter (λ p, p.1 ≠ name) rest
      else (n, v) :: params_set name value rest
  end.

(** [URLSearchParams.get]: the value of the first pair named [name]. *)
Fixpoint params_get (name : string) (l : list (string * string))
  : option string :=
  match l with
  | [] => None
  | (n, v) :: rest => if decide (n = name) then Some v else params_get name rest
  end.

Definition searchParams_set (name value : string) (url : t) : t :=
  mk (origin url) (pathname url)
     (params_set name value (searchParams url)) (hash url).

Definition searchParams_get (name : string) (url : t) : option string :=
  params_get name (searchParams url).

(** The bytes that the form-urlencoded serialiser leaves as they are:
    ASCII letters and digits, [*], [-], [.] and [_]. *)
Definition unreserved (c : Ascii.ascii) : bool :=
  let n := Ascii.N_of_ascii c in
  ((48 <=? n) && (n <=? 57) || (65 <=? n) && (n <=? 90)
   || (97 <=? n) && (n <=? 122)
   || (n =? 42) || (n =? 45) || (n =? 46) || (n =? 95))%N.

Definition hex_digit (n : N) : Ascii.ascii :=
  if (n <? 10)%N then Ascii.ascii_of_N (48 + n) else Ascii.ascii_of_N (55 + n).

Fixpoint urlencode (s : string) : string :=
  match s with
  | EmptyString => EmptyString
  | String c rest =>
      let n := Ascii.N_of_ascii c in
      if unreserved c then String c (urlencode rest)
      else if (n =? 32)%N then String (Ascii.ascii_of_N 43) (urlencode rest)
      else String (Ascii.ascii_of_N 37) (String (hex_digit (n / 16))
                      (String (hex_digit (n mod 16)) (urlencode rest)))
  end.

Fixpoint serialize (l : list (string * string)) : string :=
  match l with
  | [] => ""
  | [(n, v)] => urlencode n +:+ "=" +:+ urlencode v
  | (n, v) :: rest => urlencode n +:+ "=" +:+ urlencode v +:+ "&" +:+ serialize rest
  end.

Definition toString (url : t) : string :=
  origin url +:+ pathname url
  +:+ match searchParams url with
      | [] => ""
      | l => "?" +:+ serialize l
      end
  +:+ hash url.
End URL.
Abbreviation URL := URL.t.

(** ** Effects *)

(** The payload of a change-feed event.  The feed delivers both records
    with every event; the handler reads [new] on inserts and updates and
    [old.id] on deletes. *)
Record ChangePayload := mkPayload {
  eventType : string;
  new : Notification;
  old : Notification;
}.

(** What a handler does to the world, one constructor per call it makes.
    [RouterPush] is the router's other navigation call; the provider's
    code has no call of it. *)
Inductive Effect :=
| Dispatch (action : Action)
| AuthSignOut
| RouterReplace (href : string)
| RouterPush (href : string)
| ToastSuccess (message : string)
| ConsoleLog (payload : ChangePayload)
| GetCurrentProfile
| GetNotifications
| ChannelSubscribe (name event schema table filter : string)
| RemoveChannel (name : string).

Definition dispatch (type : string) (payload : Value) : list Effect :=
  [Dispatch (mkAction type payload)].

(** ** Setters *)

Definition setUser (value : option User) : list Effect :=
  dispatch "user" (nullable VUser value)
  ++ dispatch "authenticated" (VBool (Boolean (optional_id value))).

Definition setProfile (value : option ProfileInput) : list Effect :=
  dispatch "profile" (nullable VProfile value).

Definition setError (value : string) : list Effect :=
  dispatch "error" (VString value).

Definition setView (value : Value) : list Effect :=
  dispatch "view" value.

Definition setNotifications (value : list Notification) : list Effect :=
  dispatch "notifications" (VNotifications value).

(** ** Sign-out *)

(** The build-time environment: [process.env.NEXT_PUBLIC_SITE_URL], as
    [new URL] parses it. *)
Record Env := mkEnv {
  NEXT_PUBLIC_SITE_URL : URL;
}.

Definition redirectUrl (env : Env) (pathName : string) : URL :=
  URL.searchParams_set "redirectTo" pathName
    (URL.set_pathname "/" (NEXT_PUBLIC_SITE_URL env)).

(** [actionSignOut]: the segment up to the awaited provider call, then the
    segment after it.  The value the call fulfils with is not read.
    [pathName] is the variable of the closure: what [usePathname()] gave in
    the render that created the callback. *)
Definition actionSignOut (env : Env) (pathName : string) : list (list Effect) :=
  [ [AuthSignOut];
    [RouterReplace (URL.toString (redirectUrl env pathName))]
    ++ setUser None
    ++ setProfile None
    ++ [ToastSuccess "You have been signed out"] ].

(** *** The callback across renders

    What the hooks around [actionSignOut] keep from one render to the
    next.  [useCallback] returns a new closure when [pathName] differs
    from the one in its dependency array (the router object is the same
    in every render); [useMemo] rebuilds the context value, and with it
    the [actionSignOut] it exposes, when the snapshot object differs. *)
Record Hooks := mkHooks {
  deps_pathName : string;
  callback_pathName : string;
  value_pathName : string;
}.

(** The first render, at pathname [p]. *)
Definition mount (p : string) : Hooks := mkHooks p p p.

(** A later render at pathname [p].  [sameState] is the identity test on
    the snapshot object: false after a dispatch, since the reducer always
    builds a new object, true when only the pathname changed. *)
Definition render (prev : Hooks) (sameState : bool) (p : string) : Hooks :=
  let callback :=
    if decide (p = deps_pathName prev) then callback_pathName prev else p in
  mkHooks p callback (if sameState then value_pathName prev else callback).

Definition rendered (p0 : string) (renders : list (bool * string)) : Hooks :=
  foldl (λ h r, render h (r.1) (r.2)) (mount p0) renders.

(** ** The auth-state stream *)

Module Session.
Record t := mk {
  user : User;
}.
End Session.
Abbreviation Session := Session.t.

(** The handler passed to [onAuthStateChange]; [profile] and [fetched] are
    what [getCurrentProfile()] and [getNotifications()] fulfil with.  The
    handler does not read [event]. *)
Definition onAuthStateChange (event : string) (currentSession : option Session)
    (profile : option ProfileInput) (fetched : list Notification)
  : list (list Effect) :=
  match currentSession with
  | Some session =>
      [ setUser (Some (Session.user session)) ++ [GetCurrentProfile];
        [GetNotifications];
        setProfile profile ++ setNotifications fetched ]
  | None =>
      [ setUser None ++ setProfile None ++ setNotifications [] ]
  end.

(** ** The notification change feed *)

(** The [postgres_changes] handler.  [notifications] is the variable the
    closure captures: the provider's [notifications] prop. *)
Definition onPostgresChanges (notifications : list Notification)
    (payload : ChangePayload) : list Effect :=
  [ConsoleLog payload]
  ++ if decide (eventType payload = "INSERT") then
       setNotifications (notifications ++ [new payload])
       ++ [ToastSuccess (Notification.message (new payload))]
     else if decide (eventType payload = "UPDATE") then
       setNotifications
         (map (λ notification,
                 if decide (Notification.id notification
                            = Notification.id (new payload))
                 then new payload else notification)
              notifications)
       ++ [ToastSuccess (Notification.message (new payload))]
     else if decide (eventType payload = "DELETE") then
       setNotifications
         (filter (λ t, Notification.id t ≠ Notification.id (old payload))
                 notifications)
     else [].

(** ** The change-feed subscription *)

Inductive Thrown :=
| TypeError
| Error (message : string).

(** [state.user.id]: reading a member of [null] or [undefined] throws; a
    value without that member gives [undefined] ([None]). *)
Definition state_user_id (state : State) : Thrown + option string :=
  match state !! "user" with
  | None | Some VUndefined | Some VNull => inl TypeError
  | Some (VUser u) => inr (Some (User.id u))
  | Some (VProfile p) =>
      inr ((list_to_map (ProfileInput.fields p) : gmap string string) !! "id")
  | Some (VBool _) | Some (VString _) | Some (VNotifications _) => inr None
  end.

(** The body of the second effect up to [subscribe()]: the filter is the
    template literal [to=eq.${state.user.id}]. *)
Definition notificationsEffect (state : State) : Thrown + list Effect :=
  match state_user_id state with
  | inl e => inl e
  | inr i => inr [ChannelSubscribe "notifications" "*" "public"
                    "notifications" ("to=eq." +:+ default "undefined" i)]
  end.

(** Its cleanup. *)
Definition notificationsCleanup : list Effect :=
  [RemoveChannel "notifications"].

(** The dependency array of that effect, [[state.user.id, notifications]],
    which every render of the provider evaluates. *)
Definition notificationsDeps (props : AuthProviderProps) (state : State)
  : Thrown + (option string * list Notification) :=
  match state_user_id state with
  | inl e => inl e
  | inr i => inr (i, notifications props)
  end.

(** ** The context and [useAuth] *)

Module Actions.
Record t := mk {
  setError : string → list Effect;
  setProfile : option ProfileInput → list Effect;
  setView : Value → list Effect;
  setNotifications : list Notification → list Effect;
  actionSignOut : list (list Effect);
}.
End Actions.
Abbreviation Actions := Actions.t.

(** A value of type [[State, Actions]]; either component may be [null]. *)
Definition ContextValue : Type := option State * option Actions.

(** The default value given to [createContext]: [[null, null]]. *)
Definition AuthContext : ContextValue := (None, None).

(** The value the provider passes down. *)
Definition value (env : Env) (pathName : string) (state : State)
  : ContextValue :=
  (Some state,
   Some (Actions.mk setError setProfile setView setNotifications
           (actionSignOut env pathName))).

(** [useContext(AuthContext)]: the value of the nearest enclosing provider
    (which may be [undefined], [None]), or the default value of the
    context when no provider encloses the caller. *)
Definition useContext (enclosing : option (option ContextValue))
  : option ContextValue :=
  match enclosing with
  | Some provided => provided
  | None => Some AuthContext
  end.

Definition useAuth (enclosing : option (option ContextValue))
  : Thrown + ContextValue :=
  match useContext enclosing with
  | None => inl (Error "useAuth must be used within an AuthProvider")
  | Some context => inr context
  end.

(** The sign-out that a consumer under the provider invokes: the
    [actionSignOut] of the value that [useMemo] returned. *)
Definition exposedSignOut (env : Env) (hooks : Hooks) : list (list Effect) :=
  actionSignOut env (value_pathName hooks).

(** ** The provider as a transition system *)

Inductive Event :=
| AuthStateChange (event : string) (currentSession : option Session)
    (profile : option ProfileInput) (fetched : list Notification)
| PostgresChanges (payload : ChangePayload)
| CallSignOut (pathName : string)
| CallSetError (x : string)
| CallSetProfile (x : option ProfileInput)
| CallSetView (x : Value)
| CallSetNotifications (x : list Notification).

(** The segments that an event runs. *)
Definition handle (env : Env) (props : AuthProviderProps) (e : Event)
  : list (list Effect) :=
  match e with
  | AuthStateChange event currentSession profile fetched =>
      onAuthStateChange event currentSession profile fetched
  | PostgresChanges payload =>
      [onPostgresChanges (notifications props) payload]
  | CallSignOut pathName => actionSignOut env pathName
  | CallSetError x => [setError x]
  | CallSetProfile x => [setProfile x]
  | CallSetView x => [setView x]
  | CallSetNotifications x => [setNotifications x]
  end.

Definition dispatched (segment : list Effect) : list Action :=
  omap (λ e, match e with Dispatch a => Some a | _ => None end) segment.

Definition toasts (segment : list Effect) : list string :=
  omap (λ e, match e with ToastSuccess m => Some m | _ => None end) segment.

(** The snapshot after one synchronous segment: its dispatches, reduced in
    order. *)
Definition commit (state : State) (segment : list Effect) : State :=
  foldl reducer state (dispatched segment).

(** The snapshots consumers observe while segments run one after another. *)
Fixpoint snapshots (state : State) (segments : list (list Effect))
  : list State :=
  match segments with
  | [] => []
  | segment :: rest =>
      let state' := commit state segment in
      state' :: snapshots state' rest
  end.

(** The snapshot once all the segments have run. *)
Definition settle (state : State) (segments : list (list Effect)) : State :=
  foldl commit state segments.

(** Events handled one after another, each to completion. *)
Definition run (env : Env) (props : AuthProviderProps) (state : State)
    (events : list Event) : State :=
  foldl (λ s e, settle s (handle env props e)) state events.

(** Handlers in flight interleave at their awaits: a schedule names, step
    by step, which segment of which event runs next. *)
Definition segment_of (env : Env) (props : AuthProviderProps)
    (pick : Event * nat) : list Effect :=
  nth (pick.2) (handle env props (pick.1)) [].

Definition observable (env : Env) (props : AuthProviderProps)
    (schedule : list (Event * nat)) : list State :=
  initialState props
  :: snapshots (initialState props) (map (segment_of env props) schedule).

(** The fields that a segment assigns. *)
Definition writes (segment : list Effect) : list string :=
  type <$> dispatched segment.

Definition notifications_of (state : State) : option (list Notification) :=
  match state !! "notifications" with
  | Some (VNotifications l) => Some l
  | _ => None
  end.

(** ** Concrete data for the examples *)

Definition site : Env :=
  mkEnv (URL.mk "https://anywhen.example" "/app" [] "").

Definition owner : User := User.mk "u1" "owner@anywhen.example".

Definition note (id message : string) : Notification :=
  Notification.mk id "u2" "u1" "bookings" "info" message "{}" "/bookings"
    false 0 0.

Definition n1 : Notification := note "n1" "Hi".
Definition n2 : Notification := note "n2" "Hello again".

Definition signedIn (seed : list Notification) : AuthProviderProps :=
  mkProps (Some owner) None seed.

Definition inserted (r : Notification) : Event :=
  PostgresChanges (mkPayload "INSERT" r r).

Definition updated (r : Notification) : Event :=
  PostgresChanges (mkPayload "UPDATE" r r).

Definition deleted (r : Notification) : Event :=
  PostgresChanges (mkPayload "DELETE" r r).

(** ** Vocabulary of the specification *)

(** A user value "has a non-empty identity": it is a user record, and its
    id is not the empty string. *)
Definition has_identity (u : option User) : Prop :=
  match u with
  | Some usr => User.id usr ≠ ""
  | None => False
  end.

#[global] Instance has_identity_dec u : Decision (has_identity u).
Proof. destruct u; simpl; apply _. Defined.

(** The snapshot's [authenticated] flag agrees with its [user]. *)
Definition consistent (state : State) : Prop :=
  ∃ (u : option User) (b : bool),
    state !! "user" = Some (nullable VUser u)
    ∧ state !! "authenticated" = Some (VBool b)
    ∧ (b = true ↔ has_identity u).

(** The setter calls of the provider. *)
Inductive Setter :=
| SetError (x : string)
| SetProfile (x : option ProfileInput)
| SetView (x : Value)
| SetNotifications (x : list Notification)
| SetUser (value : option User).

Definition call (c : Setter) : list Effect :=
  match c with
  | SetError x => setError x
  | SetProfile x => setProfile x
  | SetView x => setView x
  | SetNotifications x => setNotifications x
  | SetUser value => setUser value
  end.

(** What the specification says a setter call sets field [f] to, if it
    sets it at all. *)
Definition assigns (f : string) (c : Setter) : option Value :=
  match c with
  | SetError x => if decide (f = "error") then Some (VString x) else None
  | SetProfile x =>
      if decide (f = "profile") then Some (nullable VProfile x) else None
  | SetView x => if decide (f = "view") then Some x else None
  | SetNotifications x =>
      if decide (f = "notifications") then Some (VNotifications x) else None
  | SetUser value =>
      if decide (f = "user") then Some (nullable VUser value)
      else if decide (f = "authenticated")
           then Some (VBool (bool_decide (has_identity value)))
           else None
  end.

(** The last value set for field [f] by a sequence of setter calls. *)
Fixpoint last_set (f : string) (calls : list Setter) : option Value :=
  match calls with
  | [] => None
  | c :: rest =>
      match last_set f rest with
      | Some v => Some v
      | None => assigns f c
      end
  end.

(** ** Reading a segment's dispatches *)

(** The payload of the last action of the list that addresses field [g]. *)
Fixpoint last_write (g : string) (actions : list Action) : option Value :=
  match actions with
  | [] => None
  | a :: rest =>
      match last_write g rest with
      | Some v => Some v
      | None => if decide (type a = g) then Some (payload a) else None
      end
  end.

(** The backend fetches that a segment starts. *)
Definition fetches (segment : list Effect) : list Effect :=
  omap (λ e, match e with
             | GetCurrentProfile => Some GetCurrentProfile
             | GetNotifications => Some GetNotifications
             | _ => None
             end) segment.

(** ** The shape of the snapshot *)

(** The property names of [State]. *)
Definition State_fields : gset string :=
  {[ "loading"; "authenticated"; "user"; "profile"; "error"; "view";
     "notifications" ]}.

(** What the type [State] allows a property to hold: booleans for
    [loading] and [authenticated], a user or null for [user], a profile or
    null for [profile], a string for [error], a notification array for
    [notifications], any node for [view]; no other property. *)
Definition field_ok (f : string) (v : Value) : Prop :=
  if decide (f = "loading") then ∃ b, v = VBool b
  else if decide (f = "authenticated") then ∃ b, v = VBool b
  else if decide (f = "user") then ∃ u, v = nullable VUser u
  else if decide (f = "profile") then ∃ p, v = nullable VProfile p
  else if decide (f = "error") then ∃ s, v = VString s
  else if decide (f = "notifications") then ∃ l, v = VNotifications l
  else if decide (f = "view") then True
  else False.

Definition well_formed (state : State) : Prop :=
  dom state = State_fields ∧ map_Forall field_ok state.

(** ** Calls through the context *)

(** What a consumer can do with the [Actions] it gets from [useAuth]. *)
Inductive Invocation :=
| InvokeSetError (x : string)
| InvokeSetProfile (x : option ProfileInput)
| InvokeSetView (x : Value)
| InvokeSetNotifications (x : list Notification)
| InvokeSignOut.

Definition invoke (actions : Actions) (i : Invocation) : list (list Effect) :=
  match i with
  | InvokeSetError x => [Actions.setError actions x]
  | InvokeSetProfile x => [Actions.setProfile actions x]
  | InvokeSetView x => [Actions.setView actions x]
  | InvokeSetNotifications x => [Actions.setNotifications actions x]
  | InvokeSignOut => Actions.actionSignOut actions
  end.

Definition is_signOut (i : Invocation) : bool :=
  match i with
  | InvokeSignOut => true
  | _ => false
  end.

(** ** The change-feed effect across renders *)

(** The rendering library runs the second effect after the first render
    and after each later render whose dependency array differs from the
    one of the previous render, running the cleanup of the previous run
    first; unmounting runs the last cleanup.  [renders] are the snapshots
    of the successive renders; the props are the same object in all of
    them, so the array differs exactly when [state.user.id] does.  [prev]
    is the [state.user.id] of the previous render, if there was one.  A
    render that throws ends the function. *)
Fixpoint notificationsLifetime (prev : option (option string))
    (renders : list State) : Thrown + list Effect :=
  match renders with
  | [] =>
      inr (match prev with
           | Some _ => notificationsCleanup
           | None => []
           end)
  | state :: rest =>
      match state_user_id state, notificationsEffect state with
      | inr i, inr body =>
          let ran :=
            match prev with
            | None => body
            | Some j =>
                if decide (i = j) then [] else notificationsCleanup ++ body
            end in
          match notificationsLifetime (Some i) rest with
          | inr trace => inr (ran ++ trace)
          | inl e => inl e
          end
      | inl e, _ => inl e
      | _, inl e => inl e
      end
  end.

(** Reading a trace with [live] telling whether a channel is subscribed:
    [None] when the trace subscribes while one is live or removes while
    none is, otherwise whether a channel is live at the end. *)
Fixpoint channel_live (live : bool) (trace : list Effect) : option bool :=
  match trace with
  | [] => Some live
  | ChannelSubscribe _ _ _ _ _ :: rest =>
      if live then None else channel_live true rest
  | RemoveChannel _ :: rest =>
      if live then channel_live false rest else None
  | _ :: rest => channel_live live rest
  end.

(** ** The owner sign-in section *)

Module OwnerSignInSection.
(** The two [useState] cells of the component. *)
Record t := mk {
  openSignUpDialog : bool;
  openSignInDialog : bool;
}.

Definition initial : t := mk false false.

Definition handleSignUp (s : t) : t := mk true (openSignInDialog s).

Definition handleCloseSignUpDialog (s : t) : t := mk false (openSignInDialog s).

Definition handleSignIn (s : t) : t := mk (openSignUpDialog s) true.

Definition handleCloseSignInDialog (s : t) : t := mk (openSignUpDialog s) false.

(** What the user can do with the elements the component renders: the
    button ([onClick={handleSignIn}]), the sign-up line
    ([onClick={handleSignUp}]) and the [onClose] of the two dialogs. *)
Inductive Interaction :=
| ClickSignInButton
| ClickSignUpLine
| CloseSignUpForm
| CloseSignInForm.

Definition interact (s : t) (i : Interaction) : t :=
  match i with
  | ClickSignInButton => handleSignIn s
  | ClickSignUpLine => handleSignUp s
  | CloseSignUpForm => handleCloseSignUpDialog s
  | CloseSignInForm => handleCloseSignInDialog s
  end.

Definition after (interactions : list Interaction) : t :=
  foldl interact initial interactions.

(** Whether an interaction opens or closes the sign-in dialog, or the
    sign-up dialog, if it concerns that dialog at all. *)
Definition on_signIn (i : Interaction) : option bool :=
  match i with
  | ClickSignInButton => Some true
  | CloseSignInForm => Some false
  | _ => None
  end.

Definition on_signUp (i : Interaction) : option bool :=
  match i with
  | ClickSignUpLine => Some true
  | CloseSignUpForm => Some false
  | _ => None
  end.

(** The last answer of [f] along the list, [d] when there is none. *)
Fixpoint last_answer (f : Interaction → option bool) (d : bool)
    (l : list Interaction) : bool :=
  match l with
  | [] => d
  | i :: rest =>
      last_answer f (match f i with Some b => b | None => d end) rest
  end.
End OwnerSignInSection.

(** * Properties *)

(** ** The reducer *)

Lemma reducer_lookup (state : State) (f g : string) (v : Value) :
  reducer state (mkAction f v) !! g
  = if decide (g = f) then Some v else state !! g.
Proof.
  unfold reducer; simpl. rewrite lookup_insert.
  destruct (decide (f = g)), (decide (g = f)); congruence.
Qed.

Lemma Boolean_optional_id (u : option User) :
  Boolean (optional_id u) = bool_decide (has_identity u).
Proof.
  destruct u as [[i e]|]; [|done]. by destruct i.
Qed.

Lemma commit_call (state : State) (c : Setter) (g : string) :
  commit state (call c) !! g
  = match assigns g c with Some v => Some v | None => state !! g end.
Proof.
  destruct c; cbn; rewrite ?Boolean_optional_id;
    repeat case_decide; by simplify_map_eq.
Qed.

Lemma setters_lookup (calls : list Setter) (state : State) (g : string) :
  foldl (λ s c, commit s (call c)) state calls !! g
  = match last_set g calls with Some v => Some v | None => state !! g end.
Proof.
  revert state. induction calls as [|c rest IH]; intros state; simpl; [done|].
  rewrite IH. destruct (last_set g rest); [done|]. apply commit_call.
Qed.

(** C3.  The reducer overwrites exactly the addressed field: reading field
    [g] after reducing with field [f] and value [v] gives [v] when [g] is
    [f] and the old value otherwise.  Hence after any finite sequence of
    setError/setProfile/setView/setNotifications/setUser calls every field
    holds the last value set for it, or its value before the calls when no
    call set it. *)
Theorem reducer_replaces_one_field :
  ∀ (state : State) (g : string),
    (∀ (f : string) (v : Value),
       reducer state (mkAction f v) !! g
       = if decide (g = f) then Some v else state !! g)
    ∧ (∀ calls : list Setter,
         foldl (λ s c, commit s (call c)) state calls !! g
         = match last_set g calls with
           | Some v => Some v
           | None => state !! g
           end).
Proof.
  intros state g. split.
  - intros f v. apply reducer_lookup.
  - intros calls. apply setters_lookup.
Qed.

(** ** Sign-out *)

Lemma params_get_set (name value : string) (l : list (string * string)) :
  URL.params_get name (URL.params_set name value l) = Some value.
Proof.
  induction l as [|[n v] rest IH]; simpl.
  - by rewrite decide_True.
  - destruct (decide (n = name)); simpl.
    + by rewrite decide_True.
    + by rewrite decide_False.
Qed.

Lemma params_removed (name : string) (l : list (string * string)) :
  filter (λ p, p.1 = name) (filter (λ p, p.1 ≠ name) l) = [].
Proof.
  induction l as [|[n v] rest IH]; [done|].
  rewrite (filter_cons (λ p, p.1 ≠ name)). case_decide; [|done].
  rewrite filter_cons. by case_decide.
Qed.

Lemma params_set_unique (name value : string) (l : list (string * string)) :
  filter (λ p, p.1 = name) (URL.params_set name value l) = [(name, value)].
Proof.
  induction l as [|[n v] rest IH]; simpl.
  - by rewrite filter_cons_True.
  - case_decide.
    + rewrite filter_cons_True by done. by rewrite params_removed.
    + by rewrite filter_cons_False.
Qed.

Lemma rendered_snoc (p0 : string) (renders : list (bool * string))
    (r : bool * string) :
  rendered p0 (renders ++ [r]) = render (rendered p0 renders) (r.1) (r.2).
Proof. unfold rendered. by rewrite foldl_app. Qed.

Lemma callback_holds_current_pathname (p0 : string)
    (renders : list (bool * string)) :
  callback_pathName (rendered p0 renders) = List.last (renders.*2) p0.
Proof.
  enough (callback_pathName (rendered p0 renders)
          = deps_pathName (rendered p0 renders)
          ∧ deps_pathName (rendered p0 renders) = List.last (renders.*2) p0)
    as [-> ->] by done.
  induction renders as [|[same p] rest [IHcb IHdeps]] using rev_ind; [done|].
  rewrite rendered_snoc, fmap_app. cbn [fmap list_fmap]. rewrite last_last.
  simpl. split; [|done]. case_decide; [|done]. by rewrite IHcb.
Qed.

Example redirect_from_dashboard :
  URL.toString
    (redirectUrl (mkEnv (URL.mk "https://anywhen.example" "/app" [] ""))
       "/dashboard")
  = "https://anywhen.example/?redirectTo=%2Fdashboard".
Proof. reflexivity. Qed.

(** X1.  The sign-out workflow.  In every render the callback that
    [useCallback] returns holds the pathname of that render.  For every
    pathname [pathName] it holds, [actionSignOut] builds a URL with the
    origin of the configured site URL, the root path and exactly one query
    parameter [redirectTo], equal to [pathName]; it then performs, in this
    order: the auth provider's sign-out and, once that call has fulfilled
    (its value is not read), a navigation to the URL by [replace], the
    dispatches that set [user] to null (with [authenticated] false) and
    [profile] to null, and the success notice.  Whatever the snapshot was,
    [user] and [profile] are null afterwards. *)
Theorem signOut_workflow :
  (∀ (p0 : string) (renders : list (bool * string)),
     callback_pathName (rendered p0 renders) = List.last (renders.*2) p0)
  ∧ ∀ (env : Env) (pathName : string),
      let url := redirectUrl env pathName in
      URL.origin url = URL.origin (NEXT_PUBLIC_SITE_URL env)
      ∧ URL.pathname url = "/"
      ∧ URL.searchParams_get "redirectTo" url = Some pathName
      ∧ filter (λ p, p.1 = "redirectTo") (URL.searchParams url)
        = [("redirectTo", pathName)]
      ∧ concat (actionSignOut env pathName)
        = [ AuthSignOut;
            RouterReplace (URL.toString url);
            Dispatch (mkAction "user" VNull);
            Dispatch (mkAction "authenticated" (VBool false));
            Dispatch (mkAction "profile" VNull);
            ToastSuccess "You have been signed out" ]
      ∧ ∀ state : State,
          settle state (actionSignOut env pathName) !! "user" = Some VNull
          ∧ settle state (actionSignOut env pathName) !! "profile"
            = Some VNull.
Proof.
  split; [apply callback_holds_current_pathname|].
  intros env pathName url. split_and!.
  - done.
  - done.
  - apply params_get_set.
  - apply params_set_unique.
  - done.
  - intros state. by cbn; simplify_map_eq.
Qed.

(** C1.  The claim has the redirect carry the pathname that is current
    when sign-out is invoked.  Consumers invoke the [actionSignOut] of the
    context value, which [useMemo] rebuilds only when the snapshot object
    changes.  After a first render at [/] and a navigation to [/dashboard]
    with no dispatch in between, the current pathname and the callback of
    [useCallback] are at [/dashboard], but the context value still exposes
    the callback of the first render: the sign-out performs the steps in
    the claimed order and navigates to
    [https://anywhen.example/?redirectTo=%2F], not to
    [...?redirectTo=%2Fdashboard].  The next dispatch refreshes the exposed
    callback. *)
Theorem signOut_after_navigation_redirects_to_earlier_pathname :
  let hooks := rendered "/" [(true, "/dashboard")] in
  deps_pathName hooks = "/dashboard"
  ∧ callback_pathName hooks = "/dashboard"
  ∧ value_pathName hooks = "/"
  ∧ concat (exposedSignOut site hooks)
    = [ AuthSignOut;
        RouterReplace "https://anywhen.example/?redirectTo=%2F";
        Dispatch (mkAction "user" VNull);
        Dispatch (mkAction "authenticated" (VBool false));
        Dispatch (mkAction "profile" VNull);
        ToastSuccess "You have been signed out" ]
  ∧ URL.toString (redirectUrl site "/dashboard")
    = "https://anywhen.example/?redirectTo=%2Fdashboard"
  ∧ value_pathName
      (rendered "/" [(true, "/dashboard"); (false, "/dashboard")])
    = "/dashboard".
Proof. by vm_compute. Qed.

(** ** Frame and invariants of the transition system *)

Lemma commit_frame (segment : list Effect) (state : State) (g : string) :
  g ∉ writes segment → commit state segment !! g = state !! g.
Proof.
  unfold commit, writes. revert state.
  induction (dispatched segment) as [|a acts IH]; intros state Hg; [done|].
  simpl in *. apply not_elem_of_cons in Hg as [Hne Hg].
  rewrite IH by done. unfold reducer. by rewrite lookup_insert_ne.
Qed.

Lemma writes_segment_of (env : Env) (props : AuthProviderProps)
    (pick : Event * nat) :
  Forall (λ f, f ∈ ["user"; "authenticated"; "profile"; "notifications";
                    "error"; "view"])
    (writes (segment_of env props pick)).
Proof.
  destruct pick as [e i]. unfold segment_of; simpl.
  destruct e as [event [session|] profile fetched|payload|pathName|x|x|x|x]; simpl;
    destruct i as [|[|[|[|i]]]]; simpl;
    unfold onPostgresChanges; repeat case_decide; cbn;
    repeat constructor; by apply (bool_decide_unpack _).
Qed.

Lemma commit_keeps (env : Env) (props : AuthProviderProps)
    (pick : Event * nat) (state : State) (g : string) :
  g ∉ ["user"; "authenticated"; "profile"; "notifications"; "error"; "view"] →
  commit state (segment_of env props pick) !! g = state !! g.
Proof.
  intros Hg. apply commit_frame. intros Hin.
  pose proof (writes_segment_of env props pick) as Hall.
  rewrite Forall_forall in Hall. by apply Hg, Hall.
Qed.

Lemma snapshots_Forall (P : State → Prop) (env : Env)
    (props : AuthProviderProps) (schedule : list (Event * nat)) (state : State) :
  (∀ s pick, P s → P (commit s (segment_of env props pick))) →
  P state →
  Forall P (snapshots state (map (segment_of env props) schedule)).
Proof.
  intros Hstep. revert state.
  induction schedule as [|pick rest IH]; intros state HP; simpl.
  - constructor.
  - constructor; [by apply Hstep|]. apply IH. by apply Hstep.
Qed.

Lemma consistent_setUser (state : State) (u : option User) :
  consistent (commit state (setUser u)).
Proof.
  exists u, (Boolean (optional_id u)). cbn. split_and!.
  - by simplify_map_eq.
  - by simplify_map_eq.
  - rewrite Boolean_optional_id. apply bool_decide_eq_true.
Qed.

Lemma consistent_frame (state state' : State) :
  state' !! "user" = state !! "user" →
  state' !! "authenticated" = state !! "authenticated" →
  consistent state → consistent state'.
Proof.
  intros Hu Ha (u & b & ? & ? & ?). exists u, b. by rewrite Hu, Ha.
Qed.

Lemma commit_app (state : State) (a b : list Effect) :
  commit state (a ++ b) = commit (commit state a) b.
Proof. unfold commit, dispatched. by rewrite omap_app, foldl_app. Qed.

Lemma consistent_untouched (state : State) (segment : list Effect) :
  "user" ∉ writes segment → "authenticated" ∉ writes segment →
  consistent state → consistent (commit state segment).
Proof.
  intros Hu Ha. apply consistent_frame; by apply commit_frame.
Qed.

Lemma consistent_around_setUser (state : State) (u : option User)
    (before after : list Effect) :
  "user" ∉ writes after → "authenticated" ∉ writes after →
  consistent (commit state (before ++ setUser u ++ after)).
Proof.
  intros Hu Ha. rewrite !commit_app.
  apply consistent_untouched; [done..|]. apply consistent_setUser.
Qed.

Ltac no_write := by apply (bool_decide_unpack _).

Lemma consistent_commit (env : Env) (props : AuthProviderProps)
    (state : State) (pick : Event * nat) :
  consistent state → consistent (commit state (segment_of env props pick)).
Proof.
  intros Hs. destruct pick as [e i]. unfold segment_of. cbn [fst snd].
  destruct e as [event [session|] profile fetched|payload|pathName|x|x|x|x];
    cbn [handle onAuthStateChange actionSignOut].
  - destruct i as [|[|[|i]]]; cbn [nth].
    + apply (consistent_around_setUser _ _ []); no_write.
    + apply consistent_untouched; [no_write..|done].
    + apply consistent_untouched; [no_write..|done].
    + by destruct i.
  - destruct i as [|i]; cbn [nth]; [|by destruct i].
    apply (consistent_around_setUser _ _ []); no_write.
  - destruct i as [|i]; cbn [nth]; [|by destruct i].
    unfold onPostgresChanges.
    repeat case_decide; apply consistent_untouched; (no_write || done).
  - destruct i as [|[|i]]; cbn [nth].
    + apply consistent_untouched; [no_write..|done].
    + apply (consistent_around_setUser _ _ [_]); no_write.
    + by destruct i.
  - destruct i as [|i]; cbn [nth]; [|by destruct i].
    apply consistent_untouched; [no_write..|done].
  - destruct i as [|i]; cbn [nth]; [|by destruct i].
    apply consistent_untouched; [no_write..|done].
  - destruct i as [|i]; cbn [nth]; [|by destruct i].
    apply consistent_untouched; [no_write..|done].
  - destruct i as [|i]; cbn [nth]; [|by destruct i].
    apply consistent_untouched; [no_write..|done].
Qed.

Lemma user_with_authenticated (env : Env) (props : AuthProviderProps)
    (pick : Event * nat) :
  "user" ∈ writes (segment_of env props pick)
  ↔ "authenticated" ∈ writes (segment_of env props pick).
Proof.
  destruct pick as [e i]. unfold segment_of; simpl.
  destruct e as [event [session|] profile fetched|payload|pathName|x|x|x|x]; simpl;
    destruct i as [|[|[|[|i]]]]; simpl;
    unfold onPostgresChanges; repeat case_decide; cbn;
    by apply (bool_decide_unpack _).
Qed.

Lemma consistent_initialState (props : AuthProviderProps) :
  consistent (initialState props).
Proof.
  exists (defaultUser props), (Boolean (optional_id (defaultUser props))).
  unfold initialState. split_and!.
  - by simplify_map_eq.
  - by simplify_map_eq.
  - rewrite Boolean_optional_id. apply bool_decide_eq_true.
Qed.

(** ** [setUser] and the derived flag *)

(** C2.  For every [u], null included, the snapshot after [setUser(u)] has
    [user] equal to [u] and [authenticated] true exactly when [u] has a
    non-empty id.  The two dispatches of [setUser] always run in the same
    synchronous segment: a segment of a handler assigns [user] exactly when
    it assigns [authenticated].  So the initial snapshot and every snapshot
    observable under any schedule of handler segments have [authenticated]
    equal to "[user] has a non-empty id". *)
Theorem setUser_keeps_authenticated_consistent :
  (∀ (state : State) (u : option User),
     ∃ b : bool,
       commit state (setUser u) !! "user" = Some (nullable VUser u)
       ∧ commit state (setUser u) !! "authenticated" = Some (VBool b)
       ∧ (b = true ↔ has_identity u))
  ∧ (∀ (env : Env) (props : AuthProviderProps) (pick : Event * nat),
       "user" ∈ writes (segment_of env props pick)
       ↔ "authenticated" ∈ writes (segment_of env props pick))
  ∧ (∀ props : AuthProviderProps, consistent (initialState props))
  ∧ (∀ (env : Env) (props : AuthProviderProps) (schedule : list (Event * nat)),
       Forall consistent (observable env props schedule)).
Proof.
  split_and!.
  - intros state u. exists (Boolean (optional_id u)). cbn. split_and!.
    + by simplify_map_eq.
    + by simplify_map_eq.
    + rewrite Boolean_optional_id. apply bool_decide_eq_true.
  - apply user_with_authenticated.
  - apply consistent_initialState.
  - intros env props schedule. unfold observable. constructor.
    + apply consistent_initialState.
    + apply snapshots_Forall; [|apply consistent_initialState].
      intros s pick. apply consistent_commit.
Qed.

(** ** The change-feed handler *)

Lemma insert_appends_to_prop (env : Env) (props : AuthProviderProps)
    (state : State) (payload : ChangePayload) :
  eventType payload = "INSERT" →
  notifications_of (settle state (handle env props (PostgresChanges payload)))
  = Some (notifications props ++ [new payload])
  ∧ toasts (onPostgresChanges (notifications props) payload)
    = [Notification.message (new payload)].
Proof.
  intros HT. cbn. unfold onPostgresChanges. rewrite decide_True by done.
  split; [|done]. unfold notifications_of. cbn. by simplify_map_eq.
Qed.

Lemma update_maps_the_prop (env : Env) (props : AuthProviderProps)
    (state : State) (payload : ChangePayload) :
  eventType payload = "UPDATE" →
  notifications_of (settle state (handle env props (PostgresChanges payload)))
  = Some (map (λ notification,
                 if decide (Notification.id notification
                            = Notification.id (new payload))
                 then new payload else notification)
              (notifications props)).
Proof.
  intros HT. cbn. unfold onPostgresChanges.
  rewrite decide_False by (rewrite HT; discriminate).
  rewrite decide_True by done.
  unfold notifications_of. cbn. by simplify_map_eq.
Qed.

Lemma delete_filters_the_prop (env : Env) (props : AuthProviderProps)
    (state : State) (payload : ChangePayload) :
  eventType payload = "DELETE" →
  notifications_of (settle state (handle env props (PostgresChanges payload)))
  = Some (filter (λ t, Notification.id t ≠ Notification.id (old payload))
                 (notifications props)).
Proof.
  intros HT. cbn. unfold onPostgresChanges.
  rewrite !decide_False by (rewrite HT; discriminate).
  rewrite decide_True by done.
  unfold notifications_of. cbn. by simplify_map_eq.
Qed.

Lemma update_unknown_id (l : list Notification) (r : Notification) :
  Forall (λ n, Notification.id n ≠ Notification.id r) l →
  map (λ notification,
         if decide (Notification.id notification = Notification.id r)
         then r else notification) l = l.
Proof.
  induction 1 as [|n rest Hn _ IH]; simpl; [done|].
  rewrite decide_False by done. by rewrite IH.
Qed.

Lemma update_in_place (l : list Notification) (r : Notification) (i : nat) :
  map (λ notification,
         if decide (Notification.id notification = Notification.id r)
         then r else notification) l !! i
  = (λ notification,
       if decide (Notification.id notification = Notification.id r)
       then r else notification) <$> l !! i.
Proof. apply list_lookup_fmap. Qed.

Lemma delete_unknown_id (l : list Notification) (o : Notification) :
  Forall (λ n, Notification.id n ≠ Notification.id o) l →
  filter (λ t, Notification.id t ≠ Notification.id o) l = l.
Proof.
  induction 1 as [|n rest Hn _ IH]; [done|].
  rewrite filter_cons_True by done. by rewrite IH.
Qed.

Lemma delete_keeps_order (l : list Notification) (o : Notification) :
  sublist (filter (λ t, Notification.id t ≠ Notification.id o) l) l
  ∧ ∀ n, n ∈ filter (λ t, Notification.id t ≠ Notification.id o) l
         ↔ n ∈ l ∧ Notification.id n ≠ Notification.id o.
Proof.
  split; [apply sublist_filter|]. intros n. rewrite list_elem_of_filter. tauto.
Qed.

(** While the snapshot's sequence is still the prop, the handler does what
    the specification describes. *)
Lemma change_feed_on_untouched_sequence (env : Env) (props : AuthProviderProps)
    (state : State) (payload : ChangePayload) (l : list Notification) :
  notifications_of state = Some l →
  notifications props = l →
  let after :=
    notifications_of
      (settle state (handle env props (PostgresChanges payload))) in
  (eventType payload = "INSERT" → after = Some (l ++ [new payload]))
  ∧ (eventType payload = "UPDATE" →
     Forall (λ n, Notification.id n ≠ Notification.id (new payload)) l →
     after = Some l)
  ∧ (eventType payload = "DELETE" →
     Forall (λ n, Notification.id n ≠ Notification.id (old payload)) l →
     after = Some l).
Proof.
  intros Hstate Hprop after. subst after. split_and!.
  - intros HT. rewrite <- Hprop. by apply insert_appends_to_prop.
  - intros HT Hall. rewrite update_maps_the_prop by done.
    rewrite Hprop. by rewrite update_unknown_id.
  - intros HT Hall. rewrite delete_filters_the_prop by done.
    rewrite Hprop. by rewrite delete_unknown_id.
Qed.

(** C4.  The claim has an INSERT append the new record to the current
    notification sequence of the snapshot.  The handler appends it to the
    [notifications] prop that its closure captured.  With an empty prop,
    a first INSERT of [n1] gives [[n1]], and a second INSERT of [n2] then
    gives [[n2]], not [[n1; n2]].  With the prop [[n1]] and the snapshot's
    sequence emptied by [setNotifications([])], an INSERT of [n2] gives
    [[n1; n2]], not [[n2]]. *)
Theorem insert_appends_to_the_prop_not_the_snapshot :
  notifications_of
    (run site (signedIn []) (initialState (signedIn [])) [inserted n1])
  = Some [n1]
  ∧ notifications_of
      (run site (signedIn []) (initialState (signedIn []))
         [inserted n1; inserted n2])
    = Some [n2]
  ∧ notifications_of
      (run site (signedIn [n1]) (initialState (signedIn [n1]))
         [CallSetNotifications []])
    = Some []
  ∧ notifications_of
      (run site (signedIn [n1]) (initialState (signedIn [n1]))
         [CallSetNotifications []; inserted n2])
    = Some [n1; n2].
Proof. by vm_compute. Qed.

(** C5.  The claim has an UPDATE or DELETE for an unknown id leave the
    snapshot's notification sequence as it is.  The handler maps and
    filters the [notifications] prop that its closure captured and stores
    the result.  With an empty prop and the snapshot's sequence [[n1]]
    (after an INSERT of [n1]), an UPDATE or a DELETE for the unknown id
    [n2] sets the sequence to [[]]: [n1] is lost. *)
Theorem unknown_id_event_resets_to_the_prop :
  notifications_of
    (run site (signedIn []) (initialState (signedIn [])) [inserted n1])
  = Some [n1]
  ∧ notifications_of
      (run site (signedIn []) (initialState (signedIn []))
         [inserted n1; updated n2])
    = Some []
  ∧ notifications_of
      (run site (signedIn []) (initialState (signedIn []))
         [inserted n1; deleted n2])
    = Some [].
Proof. by vm_compute. Qed.

(** C10.  For a change-feed event whose [eventType] is none of INSERT,
    UPDATE and DELETE the handler only logs the payload: it dispatches
    nothing, so the snapshot (its notification sequence included) is
    unchanged, and it shows no notice. *)
Theorem other_event_types_are_ignored :
  ∀ (env : Env) (props : AuthProviderProps) (state : State)
    (payload : ChangePayload),
    eventType payload ≠ "INSERT" →
    eventType payload ≠ "UPDATE" →
    eventType payload ≠ "DELETE" →
    onPostgresChanges (notifications props) payload = [ConsoleLog payload]
    ∧ settle state (handle env props (PostgresChanges payload)) = state
    ∧ notifications_of
        (settle state (handle env props (PostgresChanges payload)))
      = notifications_of state
    ∧ toasts (onPostgresChanges (notifications props) payload) = [].
Proof.
  intros env props state payload HI HU HD.
  assert (onPostgresChanges (notifications props) payload
          = [ConsoleLog payload]) as Heq.
  { unfold onPostgresChanges. by rewrite !decide_False by done. }
  cbn [handle settle foldl]. by rewrite Heq.
Qed.

Lemma other_event_types_are_ignored_witness :
  let payload := mkPayload "TRUNCATE" n1 n1 in
  let state := initialState (signedIn [n1]) in
  (eventType payload ≠ "INSERT"
   ∧ eventType payload ≠ "UPDATE"
   ∧ eventType payload ≠ "DELETE")
  ∧ onPostgresChanges [n1] payload = [ConsoleLog payload]
  ∧ settle state (handle site (signedIn [n1]) (PostgresChanges payload)) = state
  ∧ notifications_of
      (settle state (handle site (signedIn [n1]) (PostgresChanges payload)))
    = notifications_of state
  ∧ toasts (onPostgresChanges [n1] payload) = [].
Proof.
  split.
  - simpl. split_and!; discriminate.
  - apply (other_event_types_are_ignored site (signedIn [n1])
             (initialState (signedIn [n1])) (mkPayload "TRUNCATE" n1 n1));
      simpl; discriminate.
Defined.

(** ** [useAuth] *)

Lemma useAuth_undefined_value :
  useAuth (Some None)
  = inl (Error "useAuth must be used within an AuthProvider").
Proof. reflexivity. Qed.

Lemma useAuth_inside_provider (env : Env) (pathName : string) (state : State) :
  useAuth (Some (Some (value env pathName state)))
  = inr (value env pathName state).
Proof. reflexivity. Qed.

Lemma useAuth_exposes_memoised_signOut (env : Env) (hooks : Hooks)
    (state : State) :
  ∃ actions,
    useAuth (Some (Some (value env (value_pathName hooks) state)))
    = inr (Some state, Some actions)
    ∧ Actions.actionSignOut actions = exposedSignOut env hooks.
Proof. by eexists. Qed.

(** C6.  The claim has [useAuth] throw when no provider encloses the
    caller.  There [useContext] gives the default value of the context,
    [[null, null]], which is not [undefined]: the guard does not fire and
    [useAuth] returns [[null, null]]. *)
Theorem useAuth_outside_provider_returns_default :
  useAuth None = inr (None, None).
Proof. reflexivity. Qed.

(** ** The [loading] and [error] fields *)

Lemma loading_initialState (props : AuthProviderProps) :
  initialState props !! "loading" = Some (VBool true).
Proof. unfold initialState. by simplify_map_eq. Qed.

Lemma error_initialState (props : AuthProviderProps) :
  initialState props !! "error" = Some (VString "").
Proof. unfold initialState. by simplify_map_eq. Qed.

Lemma snapshots_keep (g : string) (segments : list (list Effect))
    (state : State) :
  Forall (λ segment, g ∉ writes segment) segments →
  Forall (λ s, s !! g = state !! g) (snapshots state segments).
Proof.
  intros Hall. revert state.
  induction Hall as [|segment rest Hg _ IH]; intros state; simpl.
  - constructor.
  - constructor; [by apply commit_frame|].
    eapply Forall_impl; [apply IH|]. simpl. intros s ->.
    by apply commit_frame.
Qed.

(** A snapshot on which the claim C7 fails: the first auth-state event,
    carrying a session, has been processed to the end and [loading] is
    still true. *)
Lemma loading_true_after_first_auth_event :
  observable site (signedIn [])
    [(AuthStateChange "SIGNED_IN" (Some (Session.mk owner)) None [], 0);
     (AuthStateChange "SIGNED_IN" (Some (Session.mk owner)) None [], 1);
     (AuthStateChange "SIGNED_IN" (Some (Session.mk owner)) None [], 2)]
  !! 3
  = Some (run site (signedIn []) (initialState (signedIn []))
            [AuthStateChange "SIGNED_IN" (Some (Session.mk owner)) None []])
  ∧ run site (signedIn []) (initialState (signedIn []))
      [AuthStateChange "SIGNED_IN" (Some (Session.mk owner)) None []] !! "loading"
    = Some (VBool true)
  ∧ run site (signedIn []) (initialState (signedIn []))
      [AuthStateChange "SIGNED_IN" (Some (Session.mk owner)) None []] !! "loading"
    ≠ Some (VBool false).
Proof. split_and!; [by vm_compute..|]. vm_compute. discriminate. Qed.

(** C7 (amended).  The [loading] flag is true in the initial snapshot and
    in every snapshot observable afterwards, under any schedule of auth
    events, change-feed events, sign-outs and setter calls: no segment of
    the provider assigns it. *)
Theorem loading_stays_true :
  ∀ (env : Env) (props : AuthProviderProps) (schedule : list (Event * nat)),
    Forall (λ s, s !! "loading" = Some (VBool true))
      (observable env props schedule).
Proof.
  intros env props schedule. unfold observable. constructor.
  - apply loading_initialState.
  - apply snapshots_Forall; [|apply loading_initialState].
    intros s pick <-. apply commit_keeps. by apply (bool_decide_unpack _).
Qed.

(** A snapshot on which the claim C8 fails: with the error message [boom]
    set, a sign-out, and likewise an auth event that is processed to the
    end, leave [error] at [boom]. *)
Lemma error_kept_by_signOut_and_auth_event :
  run site (signedIn []) (initialState (signedIn []))
    [CallSetError "boom"; CallSignOut "/dashboard"] !! "error"
  = Some (VString "boom")
  ∧ run site (signedIn []) (initialState (signedIn []))
      [CallSetError "boom"; AuthStateChange "SIGNED_IN" (Some (Session.mk owner)) None []]
    !! "error"
    = Some (VString "boom")
  ∧ run site (signedIn []) (initialState (signedIn []))
      [CallSetError "boom"; CallSignOut "/dashboard"] !! "error"
    ≠ Some (VString "").
Proof. split_and!; [by vm_compute..|]. vm_compute. discriminate. Qed.

(** C8 (amended).  The [error] field is the empty string in the initial
    snapshot, and no path of the provider clears it: in every snapshot
    observable while an event is handled, [error] is the message given to
    [setError] when the event is a [setError] call, and is what it was
    before the event otherwise (sign-out, auth events and change-feed
    events included). *)
Theorem error_changes_only_by_setError :
  (∀ props : AuthProviderProps,
     initialState props !! "error" = Some (VString ""))
  ∧ (∀ (env : Env) (props : AuthProviderProps) (state : State) (e : Event),
       Forall (λ s, s !! "error"
                    = match e with
                      | CallSetError x => Some (VString x)
                      | _ => state !! "error"
                      end)
         (snapshots state (handle env props e))).
Proof.
  split; [apply error_initialState|].
  intros env props state e.
  destruct e as [event [session|] profile fetched|payload|pathName|x|x|x|x];
    cbn [handle onAuthStateChange actionSignOut];
    try (apply snapshots_keep; unfold onPostgresChanges;
         repeat case_decide; repeat constructor;
         by apply (bool_decide_unpack _)).
  repeat constructor. cbn. by simplify_map_eq.
Qed.

(** ** The subscription set-up *)

(** C9.  Setting up the change-feed subscription reads [state.user.id]
    with no guard: on a snapshot with a user record it subscribes with the
    filter [to=eq.<id>], and on a snapshot whose [user] is null it throws a
    TypeError, as does the evaluation of the effect's dependency array.  Such snapshots are reached: whatever the snapshot was, the
    one left by an auth event without a session and the one left by a
    sign-out have a null [user], and so has the initial snapshot of a
    provider created without a default user. *)
Theorem subscription_setup_throws_on_null_user :
  (∀ (state : State) (u : User),
     notificationsEffect (<["user" := VUser u]> state)
     = inr [ChannelSubscribe "notifications" "*" "public" "notifications"
              ("to=eq." +:+ User.id u)])
  ∧ (∀ state : State,
       notificationsEffect (<["user" := VNull]> state) = inl TypeError)
  ∧ (∀ (props : AuthProviderProps) (state : State),
       notificationsDeps props (<["user" := VNull]> state) = inl TypeError)
  ∧ (∀ (state : State) (event : string) (profile : option ProfileInput)
       (fetched : list Notification),
       settle state (onAuthStateChange event None profile fetched) !! "user"
       = Some VNull
       ∧ notificationsEffect
           (settle state (onAuthStateChange event None profile fetched))
         = inl TypeError)
  ∧ (∀ (env : Env) (state : State) (pathName : string),
       settle state (actionSignOut env pathName) !! "user" = Some VNull
       ∧ notificationsEffect (settle state (actionSignOut env pathName))
         = inl TypeError)
  ∧ (∀ (profile : option ProfileInput) (seed : list Notification),
       notificationsEffect (initialState (mkProps None profile seed))
       = inl TypeError).
Proof.
  unfold notificationsEffect, notificationsDeps, state_user_id. split_and!.
  - intros state u. by simplify_map_eq.
  - intros state. by simplify_map_eq.
  - intros props state. by simplify_map_eq.
  - intros state event profile fetched. cbn. by simplify_map_eq.
  - intros env state pathName. cbn. by simplify_map_eq.
  - intros profile seed. unfold initialState. by simplify_map_eq.
Qed.


(** * Further properties of the provider *)

(** ** Segments as assignments *)

Lemma foldl_reducer_lookup (actions : list Action) (state : State)
    (g : string) :
  foldl reducer state actions !! g
  = match last_write g actions with
    | Some v => Some v
    | None => state !! g
    end.
Proof.
  revert state. induction actions as [|a rest IH]; intros state; [done|].
  simpl. rewrite IH. destruct (last_write g rest); [done|].
  destruct a as [f v]. rewrite reducer_lookup. simpl.
  destruct (decide (g = f)), (decide (f = g)); congruence.
Qed.

Lemma commit_lookup (segment : list Effect) (state : State) (g : string) :
  commit state segment !! g
  = match last_write g (dispatched segment) with
    | Some v => Some v
    | None => state !! g
    end.
Proof. apply foldl_reducer_lookup. Qed.

Lemma settle_concat (segments : list (list Effect)) (state : State) :
  settle state segments = commit state (concat segments).
Proof.
  revert state. induction segments as [|segment rest IH]; intros state.
  - done.
  - simpl. rewrite commit_app. apply IH.
Qed.


Lemma last_write_None (g : string) (actions : list Action) :
  g ∉ type <$> actions → last_write g actions = None.
Proof.
  induction actions as [|a rest IH]; [done|]. simpl.
  intros [Hne Hrest]%not_elem_of_cons. rewrite IH by done.
  by rewrite decide_False.
Qed.

Lemma Boolean_of_user (u : User) :
  Boolean (optional_id (Some u)) = bool_decide (User.id u ≠ "").
Proof. destruct u as [i e]. by destruct i. Qed.

(** ** Sign-out and the other fields *)

(** X2.  While the provider's sign-out is awaited the snapshot is as it was;
    afterwards [user] and [profile] are null, [authenticated] is false and
    every other field, the notification sequence included, holds what it
    held before: [actionSignOut] does not clear the notifications. *)
Theorem signOut_assigns_user_and_profile_only :
  ∀ (env : Env) (pathName : string) (state : State),
    snapshots state (actionSignOut env pathName)
    = [state; settle state (actionSignOut env pathName)]
    ∧ (∀ g : string,
         settle state (actionSignOut env pathName) !! g
         = if decide (g = "user") then Some VNull
           else if decide (g = "authenticated") then Some (VBool false)
           else if decide (g = "profile") then Some VNull
           else state !! g)
    ∧ notifications_of (settle state (actionSignOut env pathName))
      = notifications_of state.
Proof.
  intros env pathName state.
  assert (∀ g : string,
            settle state (actionSignOut env pathName) !! g
            = if decide (g = "user") then Some VNull
              else if decide (g = "authenticated") then Some (VBool false)
              else if decide (g = "profile") then Some VNull
              else state !! g) as Hlookup.
  { intros g. rewrite settle_concat, commit_lookup. cbn.
    repeat case_decide; congruence. }
  split_and!; [done|done|].
  unfold notifications_of. by rewrite Hlookup.
Qed.

(** ** The auth-state handler *)

(** X3.  An auth event that carries a session starts [getCurrentProfile] and
    then [getNotifications], once each.  Consumers observe three
    snapshots: after the first segment and while the two fetches are
    awaited, [user] and [authenticated] are those of the session while
    [profile] and [notifications] are still the earlier ones; after the
    fetches, [profile] and [notifications] are the fetched ones.  No other
    field changes. *)
Theorem auth_event_with_session_updates_in_two_steps :
  ∀ (event : string) (session : Session) (profile : option ProfileInput)
    (fetched : list Notification) (state : State),
    let h := onAuthStateChange event (Some session) profile fetched in
    let s1 := commit state (setUser (Some (Session.user session))) in
    fetches (concat h) = [GetCurrentProfile; GetNotifications]
    ∧ snapshots state h = [s1; s1; settle state h]
    ∧ (∀ g : string,
         s1 !! g
         = if decide (g = "user") then Some (VUser (Session.user session))
           else if decide (g = "authenticated")
                then Some (VBool (bool_decide
                                    (User.id (Session.user session) ≠ "")))
                else state !! g)
    ∧ (∀ g : string,
         settle state h !! g
         = if decide (g = "profile") then Some (nullable VProfile profile)
           else if decide (g = "notifications")
                then Some (VNotifications fetched)
                else s1 !! g).
Proof.
  intros event session profile fetched state h s1. subst h s1. split_and!.
  - done.
  - cbn [onAuthStateChange snapshots settle foldl]. by rewrite !commit_app.
  - intros g. rewrite commit_lookup. cbn -[Boolean optional_id].
    rewrite Boolean_of_user.
    generalize (bool_decide (User.id (Session.user session) ≠ "")).
    intros b. repeat case_decide; congruence.
  - intros g. rewrite settle_concat, !commit_lookup. cbn -[Boolean optional_id].
    generalize (Boolean (optional_id (Some (Session.user session)))).
    intros b. repeat case_decide; congruence.
Qed.

(** X4.  An auth event without a session starts no fetch and runs in one
    segment: consumers observe a single new snapshot, in which [user] and
    [profile] are null, [authenticated] is false and the notification
    sequence is empty, every other field being as before. *)
Theorem auth_event_without_session_clears_at_once :
  ∀ (event : string) (profile : option ProfileInput)
    (fetched : list Notification) (state : State),
    let h := onAuthStateChange event None profile fetched in
    fetches (concat h) = []
    ∧ snapshots state h = [settle state h]
    ∧ (∀ g : string,
         settle state h !! g
         = if decide (g = "user") then Some VNull
           else if decide (g = "authenticated") then Some (VBool false)
           else if decide (g = "profile") then Some VNull
           else if decide (g = "notifications") then Some (VNotifications [])
           else state !! g).
Proof.
  intros event profile fetched state h. subst h. split_and!; [done..|].
  intros g. rewrite settle_concat, commit_lookup. cbn.
  repeat case_decide; congruence.
Qed.


(** ** Handling an event twice *)


(** ** The shape of the snapshot *)

Lemma field_ok_field (f : string) (v : Value) :
  field_ok f v → f ∈ State_fields.
Proof.
  unfold field_ok. repeat case_decide; subst; try done;
    intros _; by apply (bool_decide_unpack _).
Qed.

Lemma well_formed_reducer (state : State) (a : Action) :
  field_ok (type a) (payload a) →
  well_formed state → well_formed (reducer state a).
Proof.
  intros Hok [Hdom Hall]. split.
  - unfold reducer. rewrite dom_insert_L, Hdom.
    apply field_ok_field in Hok.
    apply subseteq_union_1_L. by apply singleton_subseteq_l.
  - by apply map_Forall_insert_2.
Qed.

Lemma well_formed_commit (state : State) (segment : list Effect) :
  Forall (λ a, field_ok (type a) (payload a)) (dispatched segment) →
  well_formed state → well_formed (commit state segment).
Proof.
  unfold commit. intros Hall. revert state.
  induction Hall as [|a rest Ha _ IH]; intros state Hwf; [done|].
  simpl. apply IH. by apply well_formed_reducer.
Qed.

Lemma field_ok_user (value : option User) :
  field_ok "user" (nullable VUser value).
Proof. unfold field_ok. simpl. by exists value. Qed.

Lemma field_ok_profile (value : option ProfileInput) :
  field_ok "profile" (nullable VProfile value).
Proof. unfold field_ok. simpl. by exists value. Qed.

Lemma segment_of_typed (env : Env) (props : AuthProviderProps)
    (pick : Event * nat) :
  Forall (λ a, field_ok (type a) (payload a))
    (dispatched (segment_of env props pick)).
Proof.
  destruct pick as [e i]. unfold segment_of; simpl.
  destruct e as [event [session|] profile fetched|payload|pathName|x|x|x|x];
    simpl; destruct i as [|[|[|[|i]]]]; simpl;
    unfold onPostgresChanges; repeat case_decide; cbn -[field_ok];
    repeat constructor;
    try apply field_ok_user; try apply field_ok_profile;
    unfold field_ok; simpl; eauto;
    first [by exists (Some (Session.user session)) | by exists None].
Qed.

Lemma well_formed_initialState (props : AuthProviderProps) :
  well_formed (initialState props).
Proof.
  split.
  - unfold initialState, State_fields.
    rewrite !dom_insert_L, dom_empty_L. by rewrite (right_id_L ∅ (∪)).
  - unfold initialState.
    repeat (apply map_Forall_insert_2;
            [first [apply field_ok_user | apply field_ok_profile
                   | unfold field_ok; simpl; eauto]|]).
    apply map_Forall_empty.
Qed.

Lemma well_formed_observable (env : Env) (props : AuthProviderProps)
    (schedule : list (Event * nat)) :
  Forall well_formed (observable env props schedule).
Proof.
  unfold observable. constructor; [apply well_formed_initialState|].
  apply snapshots_Forall; [|apply well_formed_initialState].
  intros s pick. apply well_formed_commit, segment_of_typed.
Qed.

(** X7.  The reducer would add a property for any [type] it is given, and store
    any payload.  The provider never makes it do so: in the initial
    snapshot and in every snapshot observable under any schedule of handler
    segments, the properties are exactly those of [State], and each holds a
    value of its declared type. *)
Theorem snapshot_keeps_the_shape_of_State :
  ∀ (env : Env) (props : AuthProviderProps) (schedule : list (Event * nat)),
    Forall (λ state, dom state = State_fields ∧ map_Forall field_ok state)
      (observable env props schedule).
Proof. apply well_formed_observable. Qed.

(** X8.  On every observable snapshot the set-up of the change-feed
    subscription has one of two outcomes: [user] is null and it throws, or
    [user] is a user record and it subscribes with the filter
    [to=eq.<id of that user>].  The filter [to=eq.undefined] never
    occurs. *)
Theorem subscription_filter_is_the_users_id_or_throws :
  ∀ (env : Env) (props : AuthProviderProps) (schedule : list (Event * nat)),
    Forall (λ state,
              (state !! "user" = Some VNull
               ∧ notificationsEffect state = inl TypeError)
              ∨ (∃ u : User,
                   state !! "user" = Some (VUser u)
                   ∧ notificationsEffect state
                     = inr [ChannelSubscribe "notifications" "*" "public"
                              "notifications" ("to=eq." +:+ User.id u)]))
      (observable env props schedule).
Proof.
  intros env props schedule.
  eapply Forall_impl; [apply well_formed_observable|].
  intros state [Hdom Hall].
  assert (is_Some (state !! "user")) as [v Hv].
  { apply elem_of_dom. rewrite Hdom. by apply (bool_decide_unpack _). }
  pose proof (Hall _ _ Hv) as Hok. unfold field_ok in Hok. simpl in Hok.
  destruct Hok as [[u|] ->]; simpl in Hv.
  - right. exists u. unfold notificationsEffect, state_user_id.
    by rewrite Hv.
  - left. unfold notificationsEffect, state_user_id. by rewrite Hv.
Qed.

(** ** What consumers can do through the context *)

Lemma invoke_lookup (env : Env) (pathName : string) (state : State)
    (i : Invocation) (g : string) :
  g = "user" ∨ g = "authenticated" ∨ g = "loading" →
  settle state
    (invoke (Actions.mk setError setProfile setView setNotifications
               (actionSignOut env pathName)) i) !! g
  = if is_signOut i
    then (if decide (g = "user") then Some VNull
          else if decide (g = "authenticated") then Some (VBool false)
          else state !! g)
    else state !! g.
Proof.
  intros Hg. rewrite settle_concat, commit_lookup.
  destruct i; cbn; destruct Hg as [-> | [-> | ->]]; by cbn.
Qed.

(** X9.  The actions that the context exposes contain no [setUser].  Whatever
    sequence of them a consumer invokes, [loading] is left as it was, and
    [user] and [authenticated] are left as they were unless the sequence
    contains a sign-out, in which case they end null and false: through
    the context a consumer can clear the user but not set one. *)
Theorem consumers_can_only_clear_the_user :
  ∀ (env : Env) (pathName : string) (rendered_state state : State)
    (invocations : list Invocation),
    let actions :=
      Actions.mk setError setProfile setView setNotifications
        (actionSignOut env pathName) in
    let final :=
      foldl (λ s i, settle s (invoke actions i)) state invocations in
    value env pathName rendered_state = (Some rendered_state, Some actions)
    ∧ final !! "loading" = state !! "loading"
    ∧ final !! "user"
      = (if existsb is_signOut invocations then Some VNull
         else state !! "user")
    ∧ final !! "authenticated"
      = (if existsb is_signOut invocations then Some (VBool false)
         else state !! "authenticated").
Proof.
  intros env pathName rendered_state state invocations actions final.
  split; [done|]. subst final actions. revert state.
  induction invocations as [|i rest IH]; intros state; [done|].
  simpl. destruct (IH (settle state
    (invoke (Actions.mk setError setProfile setView setNotifications
               (actionSignOut env pathName)) i))) as (Hl & Hu & Ha).
  rewrite Hl, Hu, Ha. rewrite !invoke_lookup by auto.
  destruct (is_signOut i), (existsb is_signOut rest); by cbn.
Qed.

(** ** The callback that the context exposes *)

Lemma deps_is_callback (p0 : string) (renders : list (bool * string)) :
  deps_pathName (rendered p0 renders) = callback_pathName (rendered p0 renders).
Proof.
  induction renders as [|[same p] rest IH] using rev_ind; [done|].
  rewrite rendered_snoc. simpl. case_decide; [|done]. by rewrite <- IH.
Qed.

(** X10.  The [actionSignOut] that consumers get is the one of the last render
    in which the snapshot object had changed.  A render after a dispatch
    exposes a callback that holds that render's pathname; renders in which
    only the pathname changed, however many, leave the exposed callback
    (and its pathname) as it was. *)
Theorem exposed_signOut_follows_state_changes_only :
  (∀ (p0 : string) (renders : list (bool * string)) (p : string),
     value_pathName (rendered p0 (renders ++ [(false, p)])) = p)
  ∧ (∀ (p0 : string) (renders : list (bool * string))
       (navigations : list string),
       value_pathName
         (rendered p0 (renders ++ map (λ p, (true, p)) navigations))
       = value_pathName (rendered p0 renders)
       ∧ ∀ env : Env,
           exposedSignOut env
             (rendered p0 (renders ++ map (λ p, (true, p)) navigations))
           = exposedSignOut env (rendered p0 renders)).
Proof.
  split.
  - intros p0 renders p. rewrite rendered_snoc. simpl.
    case_decide; [|done]. by rewrite <- deps_is_callback.
  - intros p0 renders navigations.
    assert (value_pathName
              (rendered p0 (renders ++ map (λ p, (true, p)) navigations))
            = value_pathName (rendered p0 renders)) as Heq.
    { induction navigations as [|p rest IH] using rev_ind.
      - by rewrite app_nil_r.
      - rewrite map_app, app_assoc. simpl. by rewrite rendered_snoc. }
    split; [done|]. intros env. unfold exposedSignOut. by rewrite Heq.
Qed.

(** ** What the change-feed handler stores *)

Lemma update_keeps_ids (l : list Notification) (r : Notification) :
  Notification.id
  <$> map (λ notification,
             if decide (Notification.id notification = Notification.id r)
             then r else notification) l
  = Notification.id <$> l.
Proof.
  induction l as [|n rest IH]; [done|].
  cbn [map]. rewrite !fmap_cons, IH. f_equal. by case_decide.
Qed.

(** X11.  An UPDATE event stores a sequence with the ids of the [notifications]
    prop, in the same order (so of the same length): at every position the
    record of the prop, or the new record where the ids agree.  It shows
    the new record's message. *)
Theorem update_keeps_ids_and_positions :
  ∀ (env : Env) (props : AuthProviderProps) (state : State)
    (r o : Notification),
    let e := PostgresChanges (mkPayload "UPDATE" r o) in
    ∃ l : list Notification,
      notifications_of (settle state (handle env props e)) = Some l
      ∧ Notification.id <$> l = Notification.id <$> notifications props
      ∧ (∀ i : nat,
           l !! i
           = (λ n, if decide (Notification.id n = Notification.id r)
                   then r else n) <$> notifications props !! i)
      ∧ toasts (concat (handle env props e)) = [Notification.message r].
Proof.
  intros env props state r o e. subst e.
  eexists. split; [by apply update_maps_the_prop|]. simpl. split_and!.
  - apply update_keeps_ids.
  - intros i. apply list_lookup_fmap.
  - done.
Qed.



(** X14.  The handler computes from the [notifications] prop, so change-feed
    events do not accumulate: after any series of events, the stored
    sequence is what the last event alone gives, from any snapshot. *)
Theorem change_feed_keeps_only_the_last_event :
  ∀ (env : Env) (props : AuthProviderProps) (state state' : State)
    (earlier : list ChangePayload) (payload : ChangePayload),
    eventType payload ∈ ["INSERT"; "UPDATE"; "DELETE"] →
    notifications_of
      (run env props state
         ((PostgresChanges <$> earlier) ++ [PostgresChanges payload]))
    = notifications_of (run env props state' [PostgresChanges payload]).
Proof.
  intros env props state state' earlier payload Hin.
  unfold run. rewrite foldl_app. cbn [foldl].
  generalize (foldl (λ s e, settle s (handle env props e)) state
                (PostgresChanges <$> earlier)).
  intros s.
  apply elem_of_cons in Hin as [HT|Hin];
    [|apply elem_of_cons in Hin as [HT|Hin];
      [|apply elem_of_cons in Hin as [HT|Hin]; [|by apply elem_of_nil in Hin]]].
  - by rewrite !(proj1 (insert_appends_to_prop _ _ _ _ HT)).
  - by rewrite !update_maps_the_prop.
  - by rewrite !delete_filters_the_prop.
Qed.

Lemma change_feed_keeps_only_the_last_event_witness :
  eventType (mkPayload "INSERT" n2 n2) ∈ ["INSERT"; "UPDATE"; "DELETE"]
  ∧ notifications_of
      (run site (signedIn []) (initialState (signedIn []))
         ((PostgresChanges <$> [mkPayload "INSERT" n1 n1])
          ++ [PostgresChanges (mkPayload "INSERT" n2 n2)]))
    = notifications_of
        (run site (signedIn []) ∅ [PostgresChanges (mkPayload "INSERT" n2 n2)]).
Proof.
  assert (eventType (mkPayload "INSERT" n2 n2)
          ∈ ["INSERT"; "UPDATE"; "DELETE"]) as Hin by (simpl; left).
  split; [exact Hin|].
  exact (change_feed_keeps_only_the_last_event site (signedIn [])
           (initialState (signedIn [])) ∅ [mkPayload "INSERT" n1 n1]
           (mkPayload "INSERT" n2 n2) Hin).
Defined.

(** X15.  An INSERT, a DELETE and a second INSERT for one id, delivered in this
    order when the [notifications] prop has no record with that id, leave
    exactly one record with the id in the snapshot: the one of the second
    INSERT. *)
Theorem insert_delete_insert_leaves_one_record :
  ∀ (env : Env) (props : AuthProviderProps) (state : State)
    (r r' : Notification),
    Notification.id r' = Notification.id r →
    Forall (λ n, Notification.id n ≠ Notification.id r) (notifications props) →
    ∃ l : list Notification,
      notifications_of
        (run env props state [inserted r; deleted r; inserted r'])
      = Some l
      ∧ filter (λ n, Notification.id n = Notification.id r) l = [r'].
Proof.
  intros env props state r r' Hid Hfree.
  eexists. split.
  - unfold run, inserted. cbn [foldl].
    by apply (insert_appends_to_prop env props _ (mkPayload "INSERT" r' r')).
  - simpl. rewrite filter_app, filter_cons_True by done.
    replace (filter (λ n, Notification.id n = Notification.id r)
               (notifications props)) with (@nil Notification); [done|].
    symmetry. induction Hfree as [|n rest Hn _ IH]; [done|].
    by rewrite filter_cons_False.
Qed.

Lemma insert_delete_insert_leaves_one_record_witness :
  Notification.id (note "n1" "Hi again") = Notification.id n1
  ∧ Forall (λ n, Notification.id n ≠ Notification.id n1)
      (notifications (signedIn [n2]))
  ∧ ∃ l : list Notification,
      notifications_of
        (run site (signedIn [n2]) (initialState (signedIn [n2]))
           [inserted n1; deleted n1; inserted (note "n1" "Hi again")])
      = Some l
      ∧ filter (λ n, Notification.id n = Notification.id n1) l
        = [note "n1" "Hi again"].
Proof.
  assert (Forall (λ n, Notification.id n ≠ Notification.id n1)
            (notifications (signedIn [n2]))) as Hfree.
  { simpl. constructor; [discriminate|constructor]. }
  split; [reflexivity|]. split; [exact Hfree|].
  exact (insert_delete_insert_leaves_one_record site (signedIn [n2])
           (initialState (signedIn [n2])) n1 (note "n1" "Hi again")
           eq_refl Hfree).
Defined.

(** ** The redirect target and the configured site URL *)

Lemma params_get_set_other (name name' value : string)
    (l : list (string * string)) :
  name' ≠ name →
  URL.params_get name' (URL.params_set name value l) = URL.params_get name' l.
Proof.
  intros Hne. induction l as [|[n v] rest IH]; simpl.
  - by rewrite decide_False.
  - destruct (decide (n = name)) as [->|Hn]; simpl.
    + rewrite !decide_False by done. clear IH.
      induction rest as [|[n' v'] rest' IH']; [done|].
      rewrite filter_cons. simpl. destruct (decide (n' = name)) as [->|Hn'].
      * rewrite decide_False by auto. rewrite decide_False by done. apply IH'.
      * rewrite decide_True by done. simpl.
        destruct (decide (n' = name')); [done|apply IH'].
    + destruct (decide (n = name')); [done|apply IH].
Qed.

Lemma params_set_others (name value : string) (l : list (string * string)) :
  filter (λ p, p.1 ≠ name) (URL.params_set name value l)
  = filter (λ p, p.1 ≠ name) l.
Proof.
  induction l as [|[n v] rest IH]; simpl.
  - by rewrite filter_cons_False by (simpl; auto).
  - destruct (decide (n = name)) as [->|Hn].
    + rewrite !filter_cons_False by (simpl; auto).
      clear IH. induction rest as [|[n' v'] rest' IH']; [done|].
      rewrite !filter_cons. simpl. destruct (decide (n' ≠ name)).
      * rewrite filter_cons_True by done. by rewrite IH'.
      * apply IH'.
    + rewrite !filter_cons_True by done. by rewrite IH.
Qed.

(** X16.  The redirect target keeps the fragment of the configured site URL and
    its query parameters other than [redirectTo], in their order and with
    their values; a [redirectTo] that the site URL carries is replaced by
    the pathname; the path of the site URL is dropped for the root. *)
Theorem redirectUrl_keeps_the_rest_of_the_site_URL :
  ∀ (env : Env) (pathName : string),
    let url := redirectUrl env pathName in
    let configured := NEXT_PUBLIC_SITE_URL env in
    URL.hash url = URL.hash configured
    ∧ URL.pathname url = "/"
    ∧ filter (λ p, p.1 ≠ "redirectTo") (URL.searchParams url)
      = filter (λ p, p.1 ≠ "redirectTo") (URL.searchParams configured)
    ∧ ∀ name : string,
        URL.searchParams_get name url
        = if decide (name = "redirectTo") then Some pathName
          else URL.searchParams_get name configured.
Proof.
  intros env pathName url configured. subst url configured. split_and!.
  - done.
  - done.
  - apply params_set_others.
  - intros name. unfold URL.searchParams_get, redirectUrl. simpl.
    case_decide as Hname.
    + subst name. apply params_get_set.
    + by apply params_get_set_other.
Qed.

(** ** The lifetime of the change-feed channel *)

Lemma channel_live_app (live : bool) (a b : list Effect) :
  channel_live live (a ++ b)
  = match channel_live live a with
    | Some live' => channel_live live' b
    | None => None
    end.
Proof.
  revert live. induction a as [|e rest IH]; intros live; [done|].
  destruct e; simpl; try apply IH; destruct live; try done; apply IH.
Qed.

Lemma notificationsLifetime_balanced (renders : list State)
    (prev : option (option string)) (trace : list Effect) :
  notificationsLifetime prev renders = inr trace →
  channel_live (bool_decide (is_Some prev)) trace = Some false.
Proof.
  revert prev trace. induction renders as [|state rest IH]; intros prev trace.
  - simpl. intros [= <-]. by destruct prev.
  - simpl. unfold notificationsEffect.
    destruct (state_user_id state) as [e|i]; [done|].
    destruct (notificationsLifetime (Some i) rest) as [e|later] eqn:Hrest;
      [done|].
    intros [= <-]. specialize (IH _ _ Hrest). rewrite channel_live_app.
    destruct prev as [j|]; [|done].
    case_decide; by simpl.
Qed.

(** X17.  Over the renders of a provider, none of which throws, and its unmount,
    the change-feed channel is subscribed and removed in turn: a channel is
    never subscribed while the previous one is live, never removed twice,
    and none is live after the unmount. *)
Theorem channel_subscriptions_are_released :
  ∀ (renders : list State) (trace : list Effect),
    notificationsLifetime None renders = inr trace →
    channel_live false trace = Some false.
Proof.
  intros renders trace Hrun.
  by apply (notificationsLifetime_balanced renders None).
Qed.

Lemma channel_subscriptions_are_released_witness :
  let renders :=
    [ initialState (signedIn []);
      commit (initialState (signedIn [])) (setError "boom");
      commit (initialState (signedIn []))
        (setUser (Some (User.mk "u2" "other@anywhen.example"))) ] in
  let trace :=
    [ ChannelSubscribe "notifications" "*" "public" "notifications" "to=eq.u1";
      RemoveChannel "notifications";
      ChannelSubscribe "notifications" "*" "public" "notifications" "to=eq.u2";
      RemoveChannel "notifications" ] in
  notificationsLifetime None renders = inr trace
  ∧ channel_live false trace = Some false.
Proof.
  assert (notificationsLifetime None
            [ initialState (signedIn []);
              commit (initialState (signedIn [])) (setError "boom");
              commit (initialState (signedIn []))
                (setUser (Some (User.mk "u2" "other@anywhen.example"))) ]
          = inr [ ChannelSubscribe "notifications" "*" "public"
                    "notifications" "to=eq.u1";
                  RemoveChannel "notifications";
                  ChannelSubscribe "notifications" "*" "public"
                    "notifications" "to=eq.u2";
                  RemoveChannel "notifications" ]) as Hrun
    by (vm_compute; reflexivity).
  split; [exact Hrun|].
  exact (channel_subscriptions_are_released _ _ Hrun).
Defined.

(** ** Segments that assign different fields *)

(** X18.  Two segments that assign no field in common can run in either order:
    the snapshot is the same.  So the setters of the context, which assign
    different fields, commute. *)
Theorem segments_on_different_fields_commute :
  ∀ (state : State) (a b : list Effect),
    Forall (λ f, f ∉ writes b) (writes a) →
    commit (commit state a) b = commit (commit state b) a.
Proof.
  intros state a b Hdisjoint. apply map_eq. intros g.
  rewrite !commit_lookup.
  destruct (decide (g ∈ writes a)) as [Ha|Ha].
  - rewrite Forall_forall in Hdisjoint.
    rewrite (last_write_None g (dispatched b)) by by apply Hdisjoint.
    by destruct (last_write g (dispatched a)).
  - by rewrite (last_write_None g (dispatched a)).
Qed.

Lemma segments_on_different_fields_commute_witness :
  Forall (λ f, f ∉ writes (setNotifications [n1]))
    (writes (setUser (Some owner)))
  ∧ commit (commit (initialState (signedIn [])) (setUser (Some owner)))
      (setNotifications [n1])
    = commit (commit (initialState (signedIn [])) (setNotifications [n1]))
        (setUser (Some owner)).
Proof.
  assert (Forall (λ f, f ∉ writes (setNotifications [n1]))
            (writes (setUser (Some owner)))) as Hdisjoint.
  { repeat constructor; by apply (bool_decide_unpack _). }
  split; [exact Hdisjoint|].
  exact (segments_on_different_fields_commute _ _ _ Hdisjoint).
Defined.

(** ** The owner sign-in section *)

Lemma OwnerSignInSection_foldl (interactions : list OwnerSignInSection.Interaction)
    (s : OwnerSignInSection.t) :
  OwnerSignInSection.openSignInDialog
    (foldl OwnerSignInSection.interact s interactions)
  = OwnerSignInSection.last_answer OwnerSignInSection.on_signIn
      (OwnerSignInSection.openSignInDialog s) interactions
  ∧ OwnerSignInSection.openSignUpDialog
      (foldl OwnerSignInSection.interact s interactions)
    = OwnerSignInSection.last_answer OwnerSignInSection.on_signUp
        (OwnerSignInSection.openSignUpDialog s) interactions.
Proof.
  revert s. induction interactions as [|i rest IH]; intros s; [done|].
  simpl. destruct (IH (OwnerSignInSection.interact s i)) as [-> ->].
  by destruct i.
Qed.

(** X19.  After any series of clicks and closes, starting with both dialogs
    closed, the sign-in dialog is open exactly when the last interaction
    that concerns it was the click on the button, and the sign-up dialog
    exactly when the last that concerns it was the click on the sign-up
    line: opening or closing one dialog never changes the other, so both
    can be open together. *)
Theorem dialogs_follow_their_own_last_interaction :
  ∀ interactions : list OwnerSignInSection.Interaction,
    OwnerSignInSection.openSignInDialog
      (OwnerSignInSection.after interactions)
    = OwnerSignInSection.last_answer OwnerSignInSection.on_signIn false
        interactions
    ∧ OwnerSignInSection.openSignUpDialog
        (OwnerSignInSection.after interactions)
      = OwnerSignInSection.last_answer OwnerSignInSection.on_signUp false
          interactions.
Proof.
  intros interactions.
  apply (OwnerSignInSection_foldl interactions OwnerSignInSection.initial).
Qed.

(** ** A signed-out event after other handlers *)


